(** * View-rule registry of the eval visualization layer

    Source: [src/eval_visualization/eval_visualization.mdesk].

    The metadesk file holds one table, [EV_ViewRuleTable], and three
    generators that expand it: the [EV_ViewRuleKind] enum, a block of hook
    function declarations ([@gen]) and the C data table
    [ev_builtin_view_rule_info_table].  The table and the generators are
    embedded below cell by cell and template by template. *)

From Stdlib Require Import String Ascii List ZArith Bool Arith Lia.
Import ListNotations.
Local Open Scope string_scope.
Local Open Scope list_scope.

(* ================================================================== *)
(** * Part I: definitions *)
(* ================================================================== *)

(** ** The metadesk expression language (the fragment the file uses)

    [a.col == "x"] and [a.col != "x"] compare a cell with a literal;
    [$(c -> s)] expands to [s] when [c] holds and to nothing otherwise;
    [$(c)] on a comparison expands to the digit 1 or 0; [..] joins
    strings. *)

Definition md_eq (cell lit : string) : bool := String.eqb cell lit.
Definition md_neq (cell lit : string) : bool := negb (String.eqb cell lit).

Definition md_when {A : Type} (c : bool) (tok : A) : list A :=
  if c then [tok] else [].

Definition md_digit (c : bool) : Z := if c then 1%Z else 0%Z.

(** ** [EV_ViewRuleTable]  (lines 91-108)

    One record field per column of the [@table] header.  The column
    [string] is called [string_] here, the type [string] owning the other
    name. *)

Record EV_ViewRuleTable_row : Type := mk_row {
  coverage_check : string;
  name           : string;
  name_lower     : string;
  string_        : string;
  ih             : string;
  ex             : string;
  xr             : string;
  xe             : string;
  display_name   : string;
  docs           : string;
  schema         : string;
  description    : string
}.

Definition row_Default : EV_ViewRuleTable_row :=
  mk_row "x" "Default" "default" "default" "-" "-" "-" "x" "Default" "-" EmptyString EmptyString.
Definition row_Array : EV_ViewRuleTable_row :=
  mk_row "x" "Array" "array" "array" "-" "-" "x" "-" "Array" "x" "x:{expr}"
    "Specifies that a pointer points to N elements, rather than only 1.".
Definition row_List : EV_ViewRuleTable_row :=
  mk_row "x" "List" "list" "list" "-" "-" "-" "x" "Array" "x" "x:{expr}"
    "Specifies that a pointer points to N elements, rather than only 1.".
Definition row_Slice : EV_ViewRuleTable_row :=
  mk_row "x" "Slice" "slice" "slice" "-" "-" "x" "-" "Slice" "x" EmptyString
    "Specifies that a pointer within a struct, also containing an integer, points to the number of elements encoded by the integer.".
Definition row_ByteSwap : EV_ViewRuleTable_row :=
  mk_row "x" "ByteSwap" "bswap" "bswap" "x" "-" "x" "-" "Byte Swap" "x" EmptyString
    "Specifies that all integral evaluations should be byte-swapped, such that their endianness is reversed.".
Definition row_Cast : EV_ViewRuleTable_row :=
  mk_row "x" "Cast" "cast" "cast" "-" "-" "x" "-" "Cast" "x" "x:{type}"
    "Specifies that the expression to which the view rule is applied should be casted to the provided type.".
Definition row_Wrap : EV_ViewRuleTable_row :=
  mk_row "x" "Wrap" "wrap" "wrap" "-" "-" "x" "-" "Wrap" "x" "x:{expr}"
    "Specifies that the expression should be wrapped with the view-rule-specified expression, which will refer to the original expression as `$expr`.".
Definition row_Only : EV_ViewRuleTable_row :=
  mk_row "x" "Only" "only" "only" "x" "-" "x" "-" "Only" "x" EmptyString
    "Specifies that only the provided member names should be shown in user-defined-type expansions.".
Definition row_Omit : EV_ViewRuleTable_row :=
  mk_row "x" "Omit" "omit" "omit" "x" "-" "x" "-" "Omit" "x" EmptyString
    "Specifies that the provided member names should not be shown in user-defined-type expansions.".
Definition row_Bin : EV_ViewRuleTable_row :=
  mk_row "x" "Bin" "bin" "bin" "x" "-" "-" "-" "Display In Binary" "x" EmptyString
    "Specifies that all numeric values should be shown in base 2 (binary).".
Definition row_Oct : EV_ViewRuleTable_row :=
  mk_row "x" "Oct" "oct" "oct" "x" "-" "-" "-" "Display In Octal" "x" EmptyString
    "Specifies that all numeric values should be shown in base 8 (octal).".
Definition row_Dec : EV_ViewRuleTable_row :=
  mk_row "x" "Dec" "dec" "dec" "x" "-" "-" "-" "Display In Decimal" "x" EmptyString
    "Specifies that all numeric values should be shown in base 10 (decimal).".
Definition row_Hex : EV_ViewRuleTable_row :=
  mk_row "x" "Hex" "hex" "hex" "x" "-" "-" "-" "Display In Hexadecimal" "x" EmptyString
    "Specifies that all numeric values should be shown in base 16 (hexadecimal).".
Definition row_NoAddress : EV_ViewRuleTable_row :=
  mk_row "x" "NoAddress" "no_addr" "no_addr" "x" "-" "-" "-" "Omit Addresses" "x" EmptyString
    "Specifies that addresses should be omitted from visualizations, if possible.".

Definition EV_ViewRuleTable : list EV_ViewRuleTable_row :=
  [ row_Default; row_Array; row_List; row_Slice; row_ByteSwap; row_Cast;
    row_Wrap; row_Only; row_Omit; row_Bin; row_Oct; row_Dec; row_Hex;
    row_NoAddress ].

(** ** [@enum EV_ViewRuleKind]  (lines 110-114)

    One enumerator per row, in table order, then [COUNT]; a C enumerator's
    value is its position. *)

Definition EV_ViewRuleKind : list string :=
  map name EV_ViewRuleTable ++ ["COUNT"].

Fixpoint enumerator_value (names : list string) (n : string) : option nat :=
  match names with
  | [] => None
  | m :: rest =>
      if String.eqb m n then Some 0
      else option_map S (enumerator_value rest n)
  end.

Definition EV_ViewRuleKind_value (n : string) : option nat :=
  enumerator_value EV_ViewRuleKind n.

(** ** Hook functions

    The generators name every hook through one of five C macro families,
    [EV_VIEW_RULE_<family>_FUNCTION_NAME(id)] in the data table and
    [EV_VIEW_RULE_<family>_FUNCTION_DEF(id)] in the [@gen] block.  The
    macros live in the layer's header; what the metadesk file fixes is the
    family and the identifier, which is what [HookFunction] records. *)

Inductive HookFamily : Type :=
| EXPR_RESOLUTION
| EXPR_EXPAND_INFO
| EXPR_EXPAND_RANGE_INFO
| EXPR_EXPAND_ID_FROM_NUM
| EXPR_EXPAND_NUM_FROM_ID.

Record HookFunction : Type := FUNCTION_NAME {
  hook_family : HookFamily;
  hook_id     : string
}.

Definition HookFamily_eqb (a b : HookFamily) : bool :=
  match a, b with
  | EXPR_RESOLUTION, EXPR_RESOLUTION
  | EXPR_EXPAND_INFO, EXPR_EXPAND_INFO
  | EXPR_EXPAND_RANGE_INFO, EXPR_EXPAND_RANGE_INFO
  | EXPR_EXPAND_ID_FROM_NUM, EXPR_EXPAND_ID_FROM_NUM
  | EXPR_EXPAND_NUM_FROM_ID, EXPR_EXPAND_NUM_FROM_ID => true
  | _, _ => false
  end.

Definition HookFunction_eqb (f g : HookFunction) : bool :=
  HookFamily_eqb (hook_family f) (hook_family g)
  && String.eqb (hook_id f) (hook_id g).

(** A hook member of the C struct is a function pointer: null, or the
    address of a named function. *)

Inductive HookPtr : Type :=
| hook_null
| hook_fn (f : HookFunction).

(** ** [@gen]  (lines 116-121): the hook functions the table declares *)

Definition gen_resolution_decls : list HookFunction :=
  flat_map (fun a => md_when (md_eq (xr a) "x")
                       (FUNCTION_NAME EXPR_RESOLUTION (name_lower a)))
           EV_ViewRuleTable.

Definition gen_expand_info_decls : list HookFunction :=
  flat_map (fun a => md_when (md_eq (xe a) "x")
                       (FUNCTION_NAME EXPR_EXPAND_INFO (name_lower a)))
           EV_ViewRuleTable.

Definition gen_expand_range_info_decls : list HookFunction :=
  flat_map (fun a => md_when (md_eq (xe a) "x")
                       (FUNCTION_NAME EXPR_EXPAND_RANGE_INFO (name_lower a)))
           EV_ViewRuleTable.

Definition gen_decls : list HookFunction :=
  gen_resolution_decls ++ gen_expand_info_decls ++ gen_expand_range_info_decls.

(** ** [EV_ViewRuleInfo]: one element of the generated data table

    The initializer on line 126 has seven positional members: the rule's
    string, the flag word and five hook pointers. *)

Record EV_ViewRuleInfo : Type := mk_info {
  info_string             : string;
  flags                   : Z;
  expr_resolution         : HookPtr;
  expr_expand_info        : HookPtr;
  expr_expand_range_info  : HookPtr;
  expr_expand_id_from_num : HookPtr;
  expr_expand_num_from_id : HookPtr
}.

(** A pointer member is initialised by whatever the template expands to at
    its position.  One function name is a well-formed initializer; nothing
    at all, or two names side by side, is not C.  This reads the shape of
    the expansion only: that the name pasted into the macro is a C
    identifier is a condition on the row's [name_lower] cell
    ([is_c_identifier] below), which every row of the table meets. *)

Definition c_hook_initializer (toks : list HookFunction) : option HookPtr :=
  match toks with
  | [f] => Some (hook_fn f)
  | _ => None
  end.

(** [flags & f] read as a C truth value. *)

Definition has_flag (fl f : Z) : bool := negb (Z.land fl f =? 0)%Z.

(** The stand-in functions the template writes where a column is not
    ticked: [identity] in the resolution and id/num families, [nil] in the
    two expansion families. *)

Definition stand_in_id (fam : HookFamily) : string :=
  match fam with
  | EXPR_EXPAND_INFO | EXPR_EXPAND_RANGE_INFO => "nil"
  | EXPR_RESOLUTION | EXPR_EXPAND_ID_FROM_NUM | EXPR_EXPAND_NUM_FROM_ID => "identity"
  end.

(** The rule's own hook behind a pointer member, if it has one: a function
    other than the family's stand-in. *)

Definition own_hook (p : HookPtr) : option HookFunction :=
  match p with
  | hook_null => None
  | hook_fn f =>
      if String.eqb (hook_id f) (stand_in_id (hook_family f)) then None
      else Some f
  end.

Definition supplies_hook (p : HookPtr) : bool :=
  match own_hook p with Some _ => true | None => false end.

Definition is_null (p : HookPtr) : bool :=
  match p with hook_null => true | hook_fn _ => false end.

(** Calling through an id/num pointer member, given what each named
    function computes.  A null pointer cannot be called. *)

Definition call_num_hook (sem : HookFunction -> Z -> Z) (p : HookPtr) (x : Z)
  : option Z :=
  match p with
  | hook_null => None
  | hook_fn f => Some (sem f x)
  end.

(** ** Which hooks a descriptor supplies, and for which stages *)

Definition hook_member (d : EV_ViewRuleInfo) (fam : HookFamily) : HookPtr :=
  match fam with
  | EXPR_RESOLUTION => expr_resolution d
  | EXPR_EXPAND_INFO => expr_expand_info d
  | EXPR_EXPAND_RANGE_INFO => expr_expand_range_info d
  | EXPR_EXPAND_ID_FROM_NUM => expr_expand_id_from_num d
  | EXPR_EXPAND_NUM_FROM_ID => expr_expand_num_from_id d
  end.

Definition all_families : list HookFamily :=
  [ EXPR_RESOLUTION; EXPR_EXPAND_INFO; EXPR_EXPAND_RANGE_INFO;
    EXPR_EXPAND_ID_FROM_NUM; EXPR_EXPAND_NUM_FROM_ID ].

Definition hooks_supplied (d : EV_ViewRuleInfo) : list HookFamily :=
  filter (fun fam => supplies_hook (hook_member d fam)) all_families.

(** The stages the design document's rule table speaks of.  A descriptor
    has members for resolution and for expansion; it has none for
    stringize. *)

Inductive Stage : Type := Resolution | Expand | Stringize.

Definition Stage_eqb (a b : Stage) : bool :=
  match a, b with
  | Resolution, Resolution | Expand, Expand | Stringize, Stringize => true
  | _, _ => false
  end.

Definition stage_of_family (fam : HookFamily) : Stage :=
  match fam with
  | EXPR_RESOLUTION => Resolution
  | EXPR_EXPAND_INFO | EXPR_EXPAND_RANGE_INFO
  | EXPR_EXPAND_ID_FROM_NUM | EXPR_EXPAND_NUM_FROM_ID => Expand
  end.

Definition has_stage (d : EV_ViewRuleInfo) (st : Stage) : bool :=
  existsb (fun fam => Stage_eqb (stage_of_family fam) st) (hooks_supplied d).

(** The rule table of the design document (its section 4.6), as written
    there: rule name and the stages its row lists.  This one follows the
    document, not the metadesk table; it is what the descriptors are
    compared with. *)

Definition design_rule_table : list (string * list Stage) :=
  [ ("array",   [Resolution]);
    ("cast",    [Resolution]);
    ("wrap",    [Resolution]);
    ("slice",   [Resolution; Expand]);
    ("list",    [Expand]);
    ("bin",     [Stringize]);
    ("oct",     [Stringize]);
    ("dec",     [Stringize]);
    ("hex",     [Stringize]);
    ("bswap",   [Stringize; Expand]);
    ("only",    [Expand]);
    ("omit",    [Expand]);
    ("no_addr", [Stringize]) ].

Definition design_stages (n : string) : option (list Stage) :=
  option_map snd (find (fun r => String.eqb (fst r) n) design_rule_table).

(** A descriptor agrees with a row of the design table when it has a hook
    for each stage the row lists and for no other. *)
Definition agrees_with_design (d : EV_ViewRuleInfo) (sts : list Stage) : bool :=
  forallb (fun st => Bool.eqb (has_stage d st) (existsb (Stage_eqb st) sts))
          [Resolution; Expand; Stringize].

Section ViewRules.

(** The two flag constants are declared in the layer's header, outside
    the metadesk file; the table only multiplies and ors them. *)
Variables EV_ViewRuleInfoFlag_Inherited EV_ViewRuleInfoFlag_Expandable : Z.

(** *** [@data(EV_ViewRuleInfo) ev_builtin_view_rule_info_table]
    (lines 123-127), member by member *)

Definition init_flags (a : EV_ViewRuleTable_row) : Z :=
  Z.lor (EV_ViewRuleInfoFlag_Inherited * md_digit (md_eq (ih a) "x"))
        (EV_ViewRuleInfoFlag_Expandable * md_digit (md_eq (ex a) "x")).

Definition init_resolution (a : EV_ViewRuleTable_row) : list HookFunction :=
  md_when (md_eq (xr a) "x") (FUNCTION_NAME EXPR_RESOLUTION (name_lower a))
  ++ md_when (md_neq (xr a) "x") (FUNCTION_NAME EXPR_RESOLUTION "identity").

Definition init_expand_info (a : EV_ViewRuleTable_row) : list HookFunction :=
  md_when (md_eq (xe a) "x") (FUNCTION_NAME EXPR_EXPAND_INFO (name_lower a))
  ++ md_when (md_neq (xe a) "x") (FUNCTION_NAME EXPR_EXPAND_INFO "nil").

Definition init_expand_range_info (a : EV_ViewRuleTable_row)
  : list HookFunction :=
  md_when (md_eq (xe a) "x")
    (FUNCTION_NAME EXPR_EXPAND_RANGE_INFO (name_lower a))
  ++ md_when (md_neq (xe a) "x")
    (FUNCTION_NAME EXPR_EXPAND_RANGE_INFO "nil").

Definition init_expand_id_from_num : list HookFunction :=
  [FUNCTION_NAME EXPR_EXPAND_ID_FROM_NUM "identity"].

Definition init_expand_num_from_id : list HookFunction :=
  [FUNCTION_NAME EXPR_EXPAND_NUM_FROM_ID "identity"].

Definition info_of_row (a : EV_ViewRuleTable_row) : option EV_ViewRuleInfo :=
  match c_hook_initializer (init_resolution a),
        c_hook_initializer (init_expand_info a),
        c_hook_initializer (init_expand_range_info a),
        c_hook_initializer init_expand_id_from_num,
        c_hook_initializer init_expand_num_from_id with
  | Some r, Some e, Some g, Some i, Some n =>
      Some (mk_info (string_ a) (init_flags a) r e g i n)
  | _, _, _, _, _ => None
  end.

(** The table has one element per row for which the initializer is
    well formed (all of them, see [info_of_row_defined]). *)
Definition ev_builtin_view_rule_info_table : list EV_ViewRuleInfo :=
  flat_map (fun a => match info_of_row a with
                     | Some d => [d]
                     | None => []
                     end) EV_ViewRuleTable.

(** Element [k] of the table, as C indexes it with an [EV_ViewRuleKind]. *)
Definition info_of_kind (kind : string) : option EV_ViewRuleInfo :=
  match EV_ViewRuleKind_value kind with
  | Some k => nth_error ev_builtin_view_rule_info_table k
  | None => None
  end.

(* ------------------------------------------------------------------ *)
(** ** The rule registry, data model of the design (sections 3, 4.1) *)
(* ------------------------------------------------------------------ *)

(** Modelled from the spec: the rule descriptor as the design document
    has it (section 3, RuleSpec: a name, the two flags, an optional hook
    per stage), the view the dispatcher below works on; the dispatcher is
    not in the metadesk file.  [RuleSpec_of_info] reads one off a
    generated descriptor: a flag is set when its bit is, a hook is present
    when the member holds the rule's own function. *)

Record RuleSpec : Type := mk_spec {
  rs_name              : string;
  rs_inherited         : bool;
  rs_forced_expandable : bool;
  rs_resolution        : option HookFunction;
  rs_expand_info       : option HookFunction;
  rs_expand_range_info : option HookFunction
}.

Definition RuleSpec_of_info (d : EV_ViewRuleInfo) : RuleSpec :=
  mk_spec (info_string d)
          (has_flag (flags d) EV_ViewRuleInfoFlag_Inherited)
          (has_flag (flags d) EV_ViewRuleInfoFlag_Expandable)
          (own_hook (expr_resolution d))
          (own_hook (expr_expand_info d))
          (own_hook (expr_expand_range_info d)).

Definition registry : list RuleSpec :=
  map RuleSpec_of_info ev_builtin_view_rule_info_table.

(** Modelled from the spec: the registry lookup (section 4.1, "exact
    match, case-sensitive"); the C function that searches the table by
    string is not in the metadesk file. *)
Definition lookup (n : string) : option RuleSpec :=
  find (fun s => String.eqb (rs_name s) n) registry.

(** *** Rule applications and their binding (sections 3, 4.2, 7) *)

Record RuleApplication : Type := mk_app {
  ruleName        : string;
  rawArgumentText : string
}.

Inductive Binding : Type :=
| Bound (s : RuleSpec)
| Passthrough.

(** Modelled from the spec: what a run leaves behind besides its result,
    the registry lookups it made and the warnings it surfaced (section 7),
    in order; the code that reports them is not in the metadesk file. *)
Inductive Event : Type :=
| Consulted (n : string)
| Warning (n : string).

Definition Logged (A : Type) : Type := (A * list Event)%type.

Definition ret {A : Type} (x : A) : Logged A := (x, []).

Definition bind {A B : Type} (m : Logged A) (k : A -> Logged B) : Logged B :=
  let (x, l1) := m in
  let (y, l2) := k x in
  (y, l1 ++ l2).

Definition tell (e : Event) : Logged unit := (tt, [e]).

Notation "x <- m ;; k" := (bind m (fun x => k))
  (at level 61, m at next level, right associativity).
Notation "m ;;; k" := (bind m (fun _ => k))
  (at level 61, right associativity).

(** Modelled from the spec: binding one application to the registry
    (section 3: an unknown name "resolves to a stored passthrough
    marker"; section 7: "passthrough no-op + surfaced warning"); the
    binder is not in the metadesk file. *)
Definition bind_application (a : RuleApplication) : Logged Binding :=
  tell (Consulted (ruleName a)) ;;;
  match lookup (ruleName a) with
  | Some s => ret (Bound s)
  | None => tell (Warning (ruleName a)) ;;; ret Passthrough
  end.

(** Modelled from the spec: binding a node's list, left to right (section
    3, "order within a node's list is significant"); the binder is not in
    the metadesk file. *)
Fixpoint bind_applications (apps : list RuleApplication)
  : Logged (list (RuleApplication * Binding)) :=
  match apps with
  | [] => ret []
  | a :: rest =>
      b <- bind_application a ;;
      bs <- bind_applications rest ;;
      ret ((a, b) :: bs)
  end.

(** *** The stage dispatcher (section 4.3)

    What a hook function computes, and what the type-driven defaults
    are, is outside the table: parameters. *)

Variables Node ExpandInfo Child : Type.
Variable resolution_hook : HookFunction -> string -> Node -> Node.
Variable expand_info_hook : HookFunction -> string -> Node -> ExpandInfo.
Variable expand_range_info_hook :
  HookFunction -> string -> Node -> nat -> nat -> list Child.
Variable type_expand_info : Node -> ExpandInfo.
Variable type_expand_range_info : Node -> nat -> nat -> list Child.

Definition BoundApplication : Type := (RuleApplication * Binding)%type.

(** Modelled from the spec: resolution dispatch ("each application's
    resolution hook runs in list order, each seeing the (expression,
    type) produced by the previous one; absent hooks pass their input
    through unchanged"); the dispatcher is not in the metadesk file. *)
Definition resolve_one (n : Node) (ab : BoundApplication) : Node :=
  match snd ab with
  | Bound s =>
      match rs_resolution s with
      | Some f => resolution_hook f (rawArgumentText (fst ab)) n
      | None => n
      end
  | Passthrough => n
  end.

Definition dispatch_resolution (bs : list BoundApplication) (n : Node) : Node :=
  fold_left resolve_one bs n.

(** Modelled from the spec: whether "any application forces
    expandability" (section 4.3); the dispatcher is not in the metadesk
    file. *)
Definition forces_expandable (bs : list BoundApplication) : bool :=
  existsb (fun ab => match snd ab with
                     | Bound s => rs_forced_expandable s
                     | Passthrough => false
                     end) bs.

(** Modelled from the spec: the application that supplies a stage's hook,
    the first in list order whose rule has one in the slot [slot], with its
    argument text (section 4.3; the document does not say which of
    several wins); the dispatcher is not in the metadesk file. *)
Fixpoint first_hook (slot : RuleSpec -> option HookFunction)
         (bs : list BoundApplication) : option (HookFunction * string) :=
  match bs with
  | [] => None
  | (a, Bound s) :: rest =>
      match slot s with
      | Some f => Some (f, rawArgumentText a)
      | None => first_hook slot rest
      end
  | (_, Passthrough) :: rest => first_hook slot rest
  end.

(** Modelled from the spec: expand-info dispatch ("whether any
    application forces expandability or supplies a custom child
    count/shape; if none does, it falls back to type-driven default");
    the dispatcher is not in the metadesk file. *)
Definition dispatch_expand_info (bs : list BoundApplication) (n : Node)
  : bool * ExpandInfo :=
  (forces_expandable bs,
   match first_hook rs_expand_info bs with
   | Some (f, args) => expand_info_hook f args n
   | None => type_expand_info n
   end).

(** Modelled from the spec: expand-range-info dispatch over the
    half-open range [lo, hi) ("a rule with no such hook defers to
    default pointer-arithmetic-based child addressing"); the dispatcher
    is not in the metadesk file. *)
Definition dispatch_expand_range_info (bs : list BoundApplication)
           (n : Node) (lo hi : nat) : list Child :=
  match first_hook rs_expand_range_info bs with
  | Some (f, args) => expand_range_info_hook f args n lo hi
  | None => type_expand_range_info n lo hi
  end.

(** *** Line stringize (sections 3, 4.3, 4.6, 7) *)

Record StageContext : Type := mk_ctx {
  radix        : nat;
  byte_swap    : bool;
  no_address   : bool;
  only_members : option string;
  omit_members : option string
}.

Definition default_context : StageContext := mk_ctx 10 false false None None.

(** Modelled from the spec: the formatting state gathered from a rule list
    (section 3, StageContext; section 4.6: bin/oct/dec/hex set the radix,
    "last one in the ancestor chain wins", bswap, no_addr, only, omit); the
    code that gathers it is not in the metadesk file. *)
Definition context_step (c : StageContext) (a : RuleApplication) : StageContext :=
  let n := ruleName a in
  if String.eqb n "bin" then
    mk_ctx 2 (byte_swap c) (no_address c) (only_members c) (omit_members c)
  else if String.eqb n "oct" then
    mk_ctx 8 (byte_swap c) (no_address c) (only_members c) (omit_members c)
  else if String.eqb n "dec" then
    mk_ctx 10 (byte_swap c) (no_address c) (only_members c) (omit_members c)
  else if String.eqb n "hex" then
    mk_ctx 16 (byte_swap c) (no_address c) (only_members c) (omit_members c)
  else if String.eqb n "bswap" then
    mk_ctx (radix c) true (no_address c) (only_members c) (omit_members c)
  else if String.eqb n "no_addr" then
    mk_ctx (radix c) (byte_swap c) true (only_members c) (omit_members c)
  else if String.eqb n "only" then
    mk_ctx (radix c) (byte_swap c) (no_address c)
           (Some (rawArgumentText a)) (omit_members c)
  else if String.eqb n "omit" then
    mk_ctx (radix c) (byte_swap c) (no_address c)
           (only_members c) (Some (rawArgumentText a))
  else c.

Definition stage_context (apps : list RuleApplication) : StageContext :=
  fold_left context_step apps default_context.

(** The data being rendered: [members n] are the children the type of [n]
    gives it (none for a scalar), [leaf_text] is the text of a scalar under
    a formatting state.  Nothing is assumed of [members]: a node may be its
    own descendant. *)
Variable members : Node -> list Node.
Variable leaf_text : StageContext -> Node -> string.

Definition elision : string := "...".


Definition clip (chars : nat) (s : string) : string :=
  if (String.length s <=? chars)%nat then s
  else String.append (substring 0 chars s) elision.

(** Modelled from the spec: the members of a composite, left to right,
    each rendered by [self] with what is left of the character budget
    (section 4.3); the stringizer is not in the metadesk file. *)
Fixpoint stringize_members (self : nat -> Node -> option string)
         (chars : nat) (cs : list Node) : option string :=
  match cs with
  | [] => Some EmptyString
  | k :: rest =>
      if (chars =? 0)%nat then Some elision
      else
        match self chars k with
        | None => None
        | Some s =>
            match stringize_members self (chars - String.length s - 2) rest with
            | None => None
            | Some r =>
                Some (String.append s
                        (match rest with
                         | [] => r
                         | _ :: _ => String.append ", " r
                         end))
            end
        end
  end.

(** Modelled from the spec: one activation of the line stringizer
    (section 4.3: "recurses with a caller-supplied character budget and
    depth budget ... truncating with an explicit elision marker when
    exhausted"); the stringizer is not in the metadesk file.  Recursive
    activations go through [self], given the depth and character budget
    of the callee. *)
Definition stringize_body (self : nat -> nat -> Node -> option string)
           (ctx : StageContext) (depth chars : nat) (n : Node)
  : option string :=
  if (chars =? 0)%nat then Some elision
  else
    match members n with
    | [] => Some (clip chars (leaf_text ctx n))
    | cs =>
        match depth with
        | 0 => Some elision
        | S d =>
            match stringize_members (self d) (chars - 1) cs with
            | None => None
            | Some r => Some (String.append "{" (String.append r "}"))
            end
        end
    end.

(** Modelled from the spec: the stringizer's recursion, unrolled [fuel]
    activations deep; [None] when that was not deep enough for it to come
    back.  The stringizer is not in the metadesk file. *)
Fixpoint line_stringize (fuel : nat) (ctx : StageContext)
         (depth chars : nat) (n : Node) : option string :=
  match fuel with
  | 0 => None
  | S fuel' => stringize_body (line_stringize fuel' ctx) ctx depth chars n
  end.

(** *** One node through the pipeline (section 2, control flow) *)

Record StageOutput : Type := mk_output {
  out_node       : Node;
  out_expandable : bool * ExpandInfo;
  out_children   : list Child;
  out_line       : option string
}.

(** Modelled from the spec: the stages in the order of section 2
    (resolution, expand-info, expand-range-info over [lo, hi), line
    stringize); the driver is not in the metadesk file. *)
Definition run_stages (bs : list BoundApplication) (n : Node)
           (lo hi fuel depth chars : nat) : StageOutput :=
  let n' := dispatch_resolution bs n in
  mk_output n'
            (dispatch_expand_info bs n')
            (dispatch_expand_range_info bs n' lo hi)
            (line_stringize fuel (stage_context (map fst bs)) depth chars n').

Definition pipeline (apps : list RuleApplication) (n : Node)
           (lo hi fuel depth chars : nat) : Logged StageOutput :=
  bs <- bind_applications apps ;;
  ret (run_stages bs n lo hi fuel depth chars).

(** *** The inheritance propagator (section 4.5) *)

(** Modelled from the spec: whether applications of the rule named [n]
    propagate to children (section 3, flag Inherited); an unknown name is
    the passthrough rule, which has no flag.  The propagator is not in the
    metadesk file. *)
Definition is_inherited (n : string) : bool :=
  match lookup n with
  | Some s => rs_inherited s
  | None => false
  end.

Definition names_of (apps : list RuleApplication) : list string :=
  map ruleName apps.

Definition overridden_by (explicit : list RuleApplication)
           (a : RuleApplication) : bool :=
  existsb (String.eqb (ruleName a)) (names_of explicit).

Definition inherited_part (parent explicit : list RuleApplication)
  : list RuleApplication :=
  filter (fun a => is_inherited (ruleName a) && negb (overridden_by explicit a))
         parent.

(** Modelled from the spec: the child's effective rule list ("{ N's
    Inherited applications } U { applications explicitly written on C's
    own sub-expression text }; an explicit application on C with the same
    name as an inherited one replaces it"); the propagator is not in the
    metadesk file. *)
Definition effective_rules (parent explicit : list RuleApplication)
  : list RuleApplication :=
  inherited_part parent explicit ++ explicit.

(** Modelled from the spec: the effective list at the end of a chain of
    expansions (section 4.5 applied at each step); [path] holds, for each
    node below the root in turn, the applications written on it. *)
Fixpoint descend (root : list RuleApplication)
         (path : list (list RuleApplication)) : list RuleApplication :=
  match path with
  | [] => root
  | explicit :: deeper => descend (effective_rules root explicit) deeper
  end.

(* ================================================================== *)
(** * Part II: the generated table *)
(* ================================================================== *)

(** Proving a property of every element of an explicit list, element by
    element. *)
Ltac each_element tac :=
  repeat (apply Forall_cons; [tac|]); apply Forall_nil.

(** ** The template always yields a well-formed initializer *)

Lemma c_hook_alternative (cell lit : string) (f g : HookFunction) :
  c_hook_initializer (md_when (md_eq cell lit) f ++ md_when (md_neq cell lit) g)
  = Some (hook_fn (if md_eq cell lit then f else g)).
Proof.
  unfold md_eq, md_neq. destruct (String.eqb cell lit); reflexivity.
Qed.

Lemma info_of_row_defined (a : EV_ViewRuleTable_row) :
  info_of_row a =
  Some (mk_info (string_ a) (init_flags a)
          (hook_fn (if md_eq (xr a) "x"
                    then FUNCTION_NAME EXPR_RESOLUTION (name_lower a)
                    else FUNCTION_NAME EXPR_RESOLUTION "identity"))
          (hook_fn (if md_eq (xe a) "x"
                    then FUNCTION_NAME EXPR_EXPAND_INFO (name_lower a)
                    else FUNCTION_NAME EXPR_EXPAND_INFO "nil"))
          (hook_fn (if md_eq (xe a) "x"
                    then FUNCTION_NAME EXPR_EXPAND_RANGE_INFO (name_lower a)
                    else FUNCTION_NAME EXPR_EXPAND_RANGE_INFO "nil"))
          (hook_fn (FUNCTION_NAME EXPR_EXPAND_ID_FROM_NUM "identity"))
          (hook_fn (FUNCTION_NAME EXPR_EXPAND_NUM_FROM_ID "identity"))).
Proof.
  unfold info_of_row, init_resolution, init_expand_info, init_expand_range_info.
  now rewrite !c_hook_alternative.
Qed.

Lemma table_is_map :
  map Some ev_builtin_view_rule_info_table = map info_of_row EV_ViewRuleTable.
Proof.
  unfold ev_builtin_view_rule_info_table.
  induction EV_ViewRuleTable as [|a rows IH]; [reflexivity|].
  cbn [flat_map map]. rewrite info_of_row_defined. cbn [app map].
  now rewrite IH.
Qed.

(** One descriptor per enumerator below [COUNT]. *)
Lemma table_length :
  EV_ViewRuleKind_value "COUNT" = Some (length ev_builtin_view_rule_info_table).
Proof. reflexivity. Qed.

(** The enumerator of a row indexes the descriptor made from that row. *)
Lemma info_of_kind_row :
  Forall (fun a => info_of_kind (name a) = info_of_row a) EV_ViewRuleTable.
Proof. each_element ltac:(reflexivity). Qed.

(** ** The flag word *)

Lemma init_flags_plain (a : EV_ViewRuleTable_row) :
  md_eq (ex a) "x" = false ->
  init_flags a =
  if md_eq (ih a) "x" then EV_ViewRuleInfoFlag_Inherited else 0%Z.
Proof.
  intros Hex. unfold init_flags. rewrite Hex.
  destruct (md_eq (ih a) "x"); cbn [md_digit].
  - now rewrite Z.mul_1_r, Z.mul_0_r, Z.lor_0_r.
  - now rewrite !Z.mul_0_r.
Qed.

Lemma has_flag_zero (f : Z) : has_flag 0 f = false.
Proof. unfold has_flag. now rewrite Z.land_0_l. Qed.

Lemma has_flag_self (f : Z) : f <> 0%Z -> has_flag f f = true.
Proof.
  intros Hf. unfold has_flag. rewrite Z.land_diag.
  apply negb_true_iff, Z.eqb_neq, Hf.
Qed.

(** No row ticks [ex]. *)
Lemma ex_never_ticked :
  Forall (fun a => ex a = "-") EV_ViewRuleTable.
Proof. each_element ltac:(reflexivity). Qed.

Lemma flags_of_table :
  Forall (fun d => flags d = 0%Z \/ flags d = EV_ViewRuleInfoFlag_Inherited)
         ev_builtin_view_rule_info_table.
Proof.
  unfold ev_builtin_view_rule_info_table, EV_ViewRuleTable.
  cbn [flat_map info_of_row app]. cbn.
  each_element ltac:(cbn [flags]; rewrite init_flags_plain by reflexivity;
                     cbn; auto).
Qed.

(** ** Declared hooks *)

(** The hooks the descriptors point to, stand-ins apart, are exactly the
    functions the [@gen] block declares, family by family. *)
Lemma own_hooks_are_declared :
  flat_map (fun d => match own_hook (expr_resolution d) with
                     | Some f => [f] | None => [] end)
           ev_builtin_view_rule_info_table = gen_resolution_decls
  /\ flat_map (fun d => match own_hook (expr_expand_info d) with
                        | Some f => [f] | None => [] end)
              ev_builtin_view_rule_info_table = gen_expand_info_decls
  /\ flat_map (fun d => match own_hook (expr_expand_range_info d) with
                        | Some f => [f] | None => [] end)
              ev_builtin_view_rule_info_table = gen_expand_range_info_decls.
Proof. repeat split. Qed.

(** ** What the descriptors hold *)

(** The two flag constants are distinct bits of the flag word. *)
Hypothesis Inherited_nonzero : EV_ViewRuleInfoFlag_Inherited <> 0%Z.
Hypothesis flags_disjoint :
  Z.land EV_ViewRuleInfoFlag_Inherited EV_ViewRuleInfoFlag_Expandable = 0%Z.

Lemma no_stringize_member (d : EV_ViewRuleInfo) : has_stage d Stringize = false.
Proof.
  unfold has_stage. induction (hooks_supplied d) as [|fam l IH]; [reflexivity|].
  cbn [existsb]. rewrite IH. now destruct fam.
Qed.

(** Both expansion members of a descriptor come from the one [xe] cell:
    whatever the row, they hold a hook together or not at all. *)
Lemma expansion_hooks_together (a : EV_ViewRuleTable_row) (d : EV_ViewRuleInfo) :
  info_of_row a = Some d ->
  supplies_hook (expr_expand_info d) = supplies_hook (expr_expand_range_info d).
Proof.
  rewrite info_of_row_defined. intros [= <-]. cbn [expr_expand_info expr_expand_range_info].
  unfold supplies_hook, own_hook.
  destruct (md_eq (xe a) "x"); cbn [hook_id hook_family stand_in_id];
    [destruct (String.eqb (name_lower a) "nil")|]; reflexivity.
Qed.

(** C1, as the table has it: a descriptor supplies a resolution hook
    exactly when its row ticks [xr], and expand-info and expand-range-info
    hooks exactly when it ticks [xe]; no descriptor has a member for the
    stringize stage.  Rule by rule: array, slice, bswap, cast, wrap, only
    and omit supply a resolution hook only; default and list supply the two
    expansion hooks only; bin, oct, dec, hex and no_addr supply none.  In
    particular slice and bswap each supply a resolution hook and no
    expansion hook. *)
Theorem hooks_follow_ticked_columns :
  Forall2 (fun a d =>
             info_string d = string_ a
             /\ supplies_hook (expr_resolution d) = md_eq (xr a) "x"
             /\ supplies_hook (expr_expand_info d) = md_eq (xe a) "x"
             /\ supplies_hook (expr_expand_range_info d) = md_eq (xe a) "x"
             /\ has_stage d Stringize = false)
          EV_ViewRuleTable ev_builtin_view_rule_info_table
  /\ map (fun d => (info_string d, hooks_supplied d))
         ev_builtin_view_rule_info_table
     = [ ("default", [EXPR_EXPAND_INFO; EXPR_EXPAND_RANGE_INFO]);
         ("array",   [EXPR_RESOLUTION]);
         ("list",    [EXPR_EXPAND_INFO; EXPR_EXPAND_RANGE_INFO]);
         ("slice",   [EXPR_RESOLUTION]);
         ("bswap",   [EXPR_RESOLUTION]);
         ("cast",    [EXPR_RESOLUTION]);
         ("wrap",    [EXPR_RESOLUTION]);
         ("only",    [EXPR_RESOLUTION]);
         ("omit",    [EXPR_RESOLUTION]);
         ("bin",     []);
         ("oct",     []);
         ("dec",     []);
         ("hex",     []);
         ("no_addr", []) ]
  /\ option_map hooks_supplied (info_of_kind "Slice") = Some [EXPR_RESOLUTION]
  /\ option_map hooks_supplied (info_of_kind "ByteSwap") = Some [EXPR_RESOLUTION].
Proof.
  split; [|repeat split].
  unfold ev_builtin_view_rule_info_table, EV_ViewRuleTable.
  cbn [flat_map info_of_row app]. cbn.
  repeat (apply Forall2_cons; [repeat split|]). apply Forall2_nil.
Qed.

(** C4: the descriptors of bin, oct, dec, hex, only and omit all carry the
    Inherited flag. *)
Theorem radix_and_member_rules_inherited :
  Forall (fun kn =>
            option_map (fun d => (info_string d,
                                  has_flag (flags d) EV_ViewRuleInfoFlag_Inherited))
                       (info_of_kind (fst kn))
            = Some (snd kn, true))
         [ ("Bin", "bin"); ("Oct", "oct"); ("Dec", "dec"); ("Hex", "hex");
           ("Only", "only"); ("Omit", "omit") ].
Proof.
  each_element ltac:(cbn; rewrite init_flags_plain by reflexivity; cbn;
                     now rewrite has_flag_self by exact Inherited_nonzero).
Qed.

(** C5, as the table has it: every hook member of every descriptor is a
    named function, none is null.  Row by row, a member whose column is
    ticked holds the function named after the row's [name_lower]; a member
    whose column is not ticked holds the stand-in, written through the
    same function-name macro: [identity] in the resolution family, [nil]
    in the expand-info and expand-range-info families.  The second part
    lists the three members of all fourteen descriptors. *)
Theorem absent_hooks_are_stand_in_functions :
  let res := fun n => hook_fn (FUNCTION_NAME EXPR_RESOLUTION n) in
  let inf := fun n => hook_fn (FUNCTION_NAME EXPR_EXPAND_INFO n) in
  let rng := fun n => hook_fn (FUNCTION_NAME EXPR_EXPAND_RANGE_INFO n) in
  Forall2 (fun a d =>
             expr_resolution d
             = res (if md_eq (xr a) "x" then name_lower a else "identity")
             /\ expr_expand_info d
                = inf (if md_eq (xe a) "x" then name_lower a else "nil")
             /\ expr_expand_range_info d
                = rng (if md_eq (xe a) "x" then name_lower a else "nil")
             /\ Forall (fun fam => is_null (hook_member d fam) = false)
                       all_families)
          EV_ViewRuleTable ev_builtin_view_rule_info_table
  /\ map (fun d => (info_string d, expr_resolution d, expr_expand_info d,
                    expr_expand_range_info d))
         ev_builtin_view_rule_info_table
     = [ ("default", res "identity", inf "default", rng "default");
         ("array",   res "array",    inf "nil",     rng "nil");
         ("list",    res "identity", inf "list",    rng "list");
         ("slice",   res "slice",    inf "nil",     rng "nil");
         ("bswap",   res "bswap",    inf "nil",     rng "nil");
         ("cast",    res "cast",     inf "nil",     rng "nil");
         ("wrap",    res "wrap",     inf "nil",     rng "nil");
         ("only",    res "only",     inf "nil",     rng "nil");
         ("omit",    res "omit",     inf "nil",     rng "nil");
         ("bin",     res "identity", inf "nil",     rng "nil");
         ("oct",     res "identity", inf "nil",     rng "nil");
         ("dec",     res "identity", inf "nil",     rng "nil");
         ("hex",     res "identity", inf "nil",     rng "nil");
         ("no_addr", res "identity", inf "nil",     rng "nil") ].
Proof.
  cbv zeta. split; [|reflexivity].
  unfold ev_builtin_view_rule_info_table, EV_ViewRuleTable.
  cbn [flat_map info_of_row app]. cbn.
  repeat (apply Forall2_cons;
          [repeat split; each_element ltac:(reflexivity)|]).
  apply Forall2_nil.
Qed.

(** C8: the descriptor of the default rule has neither flag set and no
    resolution hook of its own (the member holds the [identity] stand-in),
    and both its expansion members hold the rule's own functions, which
    the [@gen] block declares: they are not the [nil] stand-in. *)
Theorem default_rule_descriptor :
  exists d,
    info_of_kind "Default" = Some d
    /\ info_string d = "default"
    /\ has_flag (flags d) EV_ViewRuleInfoFlag_Inherited = false
    /\ has_flag (flags d) EV_ViewRuleInfoFlag_Expandable = false
    /\ expr_resolution d = hook_fn (FUNCTION_NAME EXPR_RESOLUTION "identity")
    /\ supplies_hook (expr_resolution d) = false
    /\ own_hook (expr_expand_info d)
       = Some (FUNCTION_NAME EXPR_EXPAND_INFO "default")
    /\ own_hook (expr_expand_range_info d)
       = Some (FUNCTION_NAME EXPR_EXPAND_RANGE_INFO "default")
    /\ In (FUNCTION_NAME EXPR_EXPAND_INFO "default") gen_decls
    /\ In (FUNCTION_NAME EXPR_EXPAND_RANGE_INFO "default") gen_decls.
Proof.
  eexists. split; [reflexivity|]. cbn [info_string flags expr_resolution
    expr_expand_info expr_expand_range_info].
  rewrite init_flags_plain by reflexivity. cbn [md_eq row_Default ih String.eqb
    Ascii.eqb Bool.eqb].
  rewrite !has_flag_zero.
  repeat split; cbn; auto 20.
Qed.

(** ** The registry read off the descriptors *)

Lemma registry_names :
  map rs_name registry
  = [ "default"; "array"; "list"; "slice"; "bswap"; "cast"; "wrap"; "only";
      "omit"; "bin"; "oct"; "dec"; "hex"; "no_addr" ].
Proof. reflexivity. Qed.

Lemma lookup_sound (n : string) (s : RuleSpec) :
  lookup n = Some s -> In s registry /\ rs_name s = n.
Proof.
  unfold lookup. intros H. apply find_some in H. destruct H as [Hin Heq].
  split; [exact Hin|]. now apply String.eqb_eq.
Qed.

Lemma lookup_unknown (n : string) :
  lookup n = None <-> ~ In n (map rs_name registry).
Proof.
  unfold lookup. split.
  - intros H Hin. apply in_map_iff in Hin. destruct Hin as (s & Hs & Hin).
    apply (find_none _ _ H) in Hin. cbn in Hin.
    rewrite Hs, String.eqb_refl in Hin. discriminate.
  - intros H. destruct (find _ registry) as [s|] eqn:E; [|reflexivity].
    apply find_some in E. destruct E as [Hin Heq]. apply String.eqb_eq in Heq.
    exfalso. apply H. rewrite <- Heq. now apply in_map.
Qed.

Lemma registry_never_forced :
  Forall (fun s => rs_forced_expandable s = false) registry.
Proof.
  unfold registry. apply Forall_map.
  eapply Forall_impl; [|exact flags_of_table].
  intros d [H|H]; cbn [RuleSpec_of_info rs_forced_expandable]; rewrite H.
  - apply has_flag_zero.
  - unfold has_flag. now rewrite flags_disjoint.
Qed.

Lemma fst_bind {A B : Type} (m : Logged A) (k : A -> Logged B) :
  fst (bind m k) = fst (k (fst m)).
Proof. unfold bind. destruct m as [x l1]. cbn. now destruct (k x). Qed.

Lemma snd_bind {A B : Type} (m : Logged A) (k : A -> Logged B) :
  snd (bind m k) = snd m ++ snd (k (fst m)).
Proof. unfold bind. destruct m as [x l1]. cbn. now destruct (k x). Qed.

Lemma binding_of_application (a : RuleApplication) :
  fst (bind_application a)
  = match lookup (ruleName a) with
    | Some s => Bound s
    | None => Passthrough
    end.
Proof.
  unfold bind_application. rewrite fst_bind.
  now destruct (lookup (ruleName a)).
Qed.

Lemma bindings_cons (a : RuleApplication) (rest : list RuleApplication) :
  fst (bind_applications (a :: rest))
  = (a, fst (bind_application a)) :: fst (bind_applications rest).
Proof. cbn [bind_applications]. now rewrite !fst_bind. Qed.

Lemma bindings_keep_applications (apps : list RuleApplication) :
  map fst (fst (bind_applications apps)) = apps.
Proof.
  induction apps as [|a rest IH]; [reflexivity|].
  rewrite bindings_cons. cbn [map fst]. now rewrite IH.
Qed.

(** C9: no row of the table ticks [ex], so no descriptor has the
    Expandable flag set, and no rule of the registry forces expandability. *)
Theorem no_rule_forces_expandable :
  Forall (fun a => ex a = "-") EV_ViewRuleTable
  /\ Forall (fun d => has_flag (flags d) EV_ViewRuleInfoFlag_Expandable = false)
            ev_builtin_view_rule_info_table
  /\ Forall (fun s => rs_forced_expandable s = false) registry.
Proof.
  split; [exact ex_never_ticked|]. split; [|exact registry_never_forced].
  eapply Forall_impl; [|exact flags_of_table].
  intros d [H|H]; rewrite H.
  - apply has_flag_zero.
  - unfold has_flag. now rewrite flags_disjoint.
Qed.

(** Hence, whatever rule list a node carries, the dispatcher's
    forced-expandability answer is negative. *)
Lemma dispatch_never_forced (apps : list RuleApplication) :
  forces_expandable (fst (bind_applications apps)) = false.
Proof.
  induction apps as [|a rest IH]; [reflexivity|].
  rewrite bindings_cons. cbn [forces_expandable existsb snd].
  fold (forces_expandable (fst (bind_applications rest))). rewrite IH.
  rewrite binding_of_application, orb_false_r.
  destruct (lookup (ruleName a)) as [s|] eqn:E; [|reflexivity].
  apply lookup_sound in E. destruct E as [Hin _].
  pose proof registry_never_forced as F. rewrite Forall_forall in F.
  now apply F.
Qed.

(** What the functions behind the id/num members compute is fixed by the C
    file that defines them; the one fact used is that the two functions
    called [identity] return their argument. *)
Variable num_hook : HookFunction -> Z -> Z.
Hypothesis id_from_num_identity :
  forall x, num_hook (FUNCTION_NAME EXPR_EXPAND_ID_FROM_NUM "identity") x = x.
Hypothesis num_from_id_identity :
  forall x, num_hook (FUNCTION_NAME EXPR_EXPAND_NUM_FROM_ID "identity") x = x.

(** C10: in every descriptor the expand-info hook is present exactly when
    the expand-range-info hook is, both id/num members hold the [identity]
    function of their family, and so a child's ordinal and its identifier
    map to each other unchanged. *)
Theorem expansion_hooks_paired_and_ids_identity :
  Forall (fun d =>
            supplies_hook (expr_expand_info d)
            = supplies_hook (expr_expand_range_info d)
            /\ expr_expand_id_from_num d
               = hook_fn (FUNCTION_NAME EXPR_EXPAND_ID_FROM_NUM "identity")
            /\ expr_expand_num_from_id d
               = hook_fn (FUNCTION_NAME EXPR_EXPAND_NUM_FROM_ID "identity")
            /\ forall x,
                 call_num_hook num_hook (expr_expand_id_from_num d) x = Some x
                 /\ call_num_hook num_hook (expr_expand_num_from_id d) x = Some x)
         ev_builtin_view_rule_info_table.
Proof.
  unfold ev_builtin_view_rule_info_table, EV_ViewRuleTable.
  cbn [flat_map info_of_row app]. cbn.
  each_element ltac:(repeat (split || intro);
                     cbn [call_num_hook expr_expand_id_from_num
                          expr_expand_num_from_id];
                     now rewrite ?id_from_num_identity, ?num_from_id_identity).
Qed.

(* ================================================================== *)
(** * Part III: binding and dispatch *)
(* ================================================================== *)

Lemma bindings_app (l1 l2 : list RuleApplication) :
  fst (bind_applications (l1 ++ l2))
  = fst (bind_applications l1) ++ fst (bind_applications l2).
Proof.
  induction l1 as [|a l1 IH]; [reflexivity|].
  rewrite <- app_comm_cons, !bindings_cons, IH. reflexivity.
Qed.

Lemma log_cons (a : RuleApplication) (rest : list RuleApplication) :
  snd (bind_applications (a :: rest))
  = snd (bind_application a) ++ snd (bind_applications rest).
Proof.
  cbn [bind_applications]. rewrite !snd_bind. cbn [ret snd].
  now rewrite app_nil_r.
Qed.

Lemma log_app (l1 l2 : list RuleApplication) :
  snd (bind_applications (l1 ++ l2))
  = snd (bind_applications l1) ++ snd (bind_applications l2).
Proof.
  induction l1 as [|a l1 IH]; [reflexivity|].
  rewrite <- app_comm_cons, !log_cons, IH. now rewrite app_assoc.
Qed.

Lemma pipeline_output (apps : list RuleApplication) (n : Node)
      (lo hi fuel depth chars : nat) :
  fst (pipeline apps n lo hi fuel depth chars)
  = run_stages (fst (bind_applications apps)) n lo hi fuel depth chars.
Proof. unfold pipeline. now rewrite fst_bind. Qed.

Lemma pipeline_log (apps : list RuleApplication) (n : Node)
      (lo hi fuel depth chars : nat) :
  snd (pipeline apps n lo hi fuel depth chars) = snd (bind_applications apps).
Proof. unfold pipeline. rewrite snd_bind. cbn [ret snd]. apply app_nil_r. Qed.

(** *** A passthrough application leaves every stage as it was *)

Section PassthroughSkipped.

Variable a : RuleApplication.
Variables bs1 bs2 : list BoundApplication.

Lemma resolution_skips_passthrough (n : Node) :
  dispatch_resolution (bs1 ++ (a, Passthrough) :: bs2) n
  = dispatch_resolution (bs1 ++ bs2) n.
Proof. unfold dispatch_resolution. now rewrite !fold_left_app. Qed.

Lemma forcing_skips_passthrough :
  forces_expandable (bs1 ++ (a, Passthrough) :: bs2)
  = forces_expandable (bs1 ++ bs2).
Proof. unfold forces_expandable. now rewrite !existsb_app. Qed.

Lemma first_hook_skips_passthrough (slot : RuleSpec -> option HookFunction) :
  first_hook slot (bs1 ++ (a, Passthrough) :: bs2) = first_hook slot (bs1 ++ bs2).
Proof.
  induction bs1 as [|[b [s|]] l IH]; cbn [app first_hook]; try assumption;
    try reflexivity.
  now destruct (slot s).
Qed.

End PassthroughSkipped.

(** A name the registry does not have is none of the formatting rules. *)
Lemma context_ignores_unknown (c : StageContext) (a : RuleApplication) :
  ~ In (ruleName a) (map rs_name registry) -> context_step c a = c.
Proof.
  rewrite registry_names. intros H. unfold context_step.
  repeat match goal with
         | |- context [String.eqb (ruleName a) ?lit] =>
             destruct (String.eqb_spec (ruleName a) lit) as [E|_];
             [exfalso; apply H; rewrite E; cbn; tauto|]
         end.
  reflexivity.
Qed.

(** The last radix rule of a list decides the radix. *)
Lemma last_radix_rule_decides (apps : list RuleApplication) (args : string) :
  radix (stage_context (apps ++ [mk_app "bin" args])) = 2
  /\ radix (stage_context (apps ++ [mk_app "oct" args])) = 8
  /\ radix (stage_context (apps ++ [mk_app "dec" args])) = 10
  /\ radix (stage_context (apps ++ [mk_app "hex" args])) = 16.
Proof. unfold stage_context. rewrite !fold_left_app. repeat split. Qed.

(** C2: an application whose name the registry does not have binds to the
    passthrough marker and surfaces a warning.  The node's pipeline runs on:
    wherever the application stands in the node's list, every stage gives
    what it gives without it, and the warning is in the log.  Binding has
    no third outcome: a rule of exactly that name, or the marker. *)
Theorem unknown_rule_is_passthrough (a : RuleApplication) :
  ~ In (ruleName a) (map rs_name registry) ->
  bind_application a
  = (Passthrough, [Consulted (ruleName a); Warning (ruleName a)])
  /\ (forall (before after : list RuleApplication) (n : Node)
             (lo hi fuel depth chars : nat),
         fst (pipeline (before ++ a :: after) n lo hi fuel depth chars)
         = fst (pipeline (before ++ after) n lo hi fuel depth chars)
         /\ In (Warning (ruleName a))
               (snd (pipeline (before ++ a :: after) n lo hi fuel depth chars)))
  /\ (forall b : RuleApplication,
         (exists s, In s registry /\ rs_name s = ruleName b
                    /\ fst (bind_application b) = Bound s)
         \/ (~ In (ruleName b) (map rs_name registry)
             /\ fst (bind_application b) = Passthrough)).
Proof.
  intros Hunknown.
  assert (Hbind : bind_application a
                  = (Passthrough, [Consulted (ruleName a); Warning (ruleName a)])).
  { unfold bind_application.
    apply lookup_unknown in Hunknown. now rewrite Hunknown. }
  split; [exact Hbind|]. split.
  - intros before after n lo hi fuel depth chars. split.
    + rewrite !pipeline_output, !bindings_app, bindings_cons, Hbind.
      cbn [fst]. unfold run_stages.
      rewrite resolution_skips_passthrough.
      unfold dispatch_expand_info, dispatch_expand_range_info.
      rewrite forcing_skips_passthrough, !first_hook_skips_passthrough.
      assert (Hctx : stage_context
                       (map fst (fst (bind_applications before)
                                 ++ (a, Passthrough)
                                    :: fst (bind_applications after)))
                     = stage_context
                         (map fst (fst (bind_applications before)
                                   ++ fst (bind_applications after)))).
      { unfold stage_context. rewrite !map_app, !fold_left_app.
        cbn [map fst fold_left].
        now rewrite context_ignores_unknown by exact Hunknown. }
      now rewrite Hctx.
    + rewrite pipeline_log, log_app, log_cons, Hbind. cbn [snd].
      apply in_or_app. right. cbn. tauto.
  - intros b. rewrite binding_of_application.
    destruct (lookup (ruleName b)) as [s|] eqn:E.
    + left. exists s. apply lookup_sound in E. tauto.
    + right. split; [now apply lookup_unknown|reflexivity].
Qed.

(** Rules without a hook in a stage leave that stage to the default. *)
Lemma resolution_without_hooks (bs : list BoundApplication) (n : Node) :
  first_hook rs_resolution bs = None -> dispatch_resolution bs n = n.
Proof.
  unfold dispatch_resolution. revert n.
  induction bs as [|[b [s|]] l IH]; intros n H; cbn [fold_left first_hook] in *.
  - reflexivity.
  - unfold resolve_one at 2. cbn [snd fst].
    destruct (rs_resolution s); [discriminate|]. now apply IH.
  - now apply IH.
Qed.

Lemma expansion_without_hooks (bs : list BoundApplication) (n : Node)
      (lo hi : nat) :
  first_hook rs_expand_info bs = None ->
  first_hook rs_expand_range_info bs = None ->
  snd (dispatch_expand_info bs n) = type_expand_info n
  /\ dispatch_expand_range_info bs n lo hi = type_expand_range_info n lo hi.
Proof.
  intros H1 H2. unfold dispatch_expand_info, dispatch_expand_range_info.
  now rewrite H1, H2.
Qed.

(* ================================================================== *)
(** * Part IV: inheritance *)
(* ================================================================== *)

Lemma overridden_by_name (explicit : list RuleApplication) (a : RuleApplication) :
  overridden_by explicit a = true <-> In (ruleName a) (names_of explicit).
Proof.
  unfold overridden_by. rewrite existsb_exists. split.
  - intros (m & Hin & Heq). apply String.eqb_eq in Heq. now subst m.
  - intros Hin. exists (ruleName a). split; [exact Hin|apply String.eqb_refl].
Qed.

Lemma in_inherited_part (N C : list RuleApplication) (a : RuleApplication) :
  In a (inherited_part N C)
  <-> In a N /\ is_inherited (ruleName a) = true
      /\ ~ In (ruleName a) (names_of C).
Proof.
  unfold inherited_part. rewrite filter_In, andb_true_iff, negb_true_iff.
  rewrite <- overridden_by_name. destruct (overridden_by C a); intuition congruence.
Qed.

Lemma in_effective_rules (N C : list RuleApplication) (a : RuleApplication) :
  In a (effective_rules N C)
  <-> In a C
      \/ (In a N /\ is_inherited (ruleName a) = true
          /\ ~ In (ruleName a) (names_of C)).
Proof.
  unfold effective_rules. rewrite in_app_iff, in_inherited_part. tauto.
Qed.

(** Which rules propagate, as the table's [ih] column has it. *)
Lemma inherited_flags_of_registry :
  map (fun s => (rs_name s, rs_inherited s)) registry
  = [ ("default", false); ("array", false); ("list", false); ("slice", false);
      ("bswap", true); ("cast", false); ("wrap", false); ("only", true);
      ("omit", true); ("bin", true); ("oct", true); ("dec", true);
      ("hex", true); ("no_addr", true) ].
Proof.
  unfold registry, ev_builtin_view_rule_info_table, EV_ViewRuleTable.
  cbn [flat_map info_of_row app]. cbn.
  rewrite !init_flags_plain by reflexivity. cbn.
  now rewrite has_flag_self by exact Inherited_nonzero.
Qed.

(** Below a node, an application of a rule that is not inherited can only
    be one the descendant carries in its own text. *)
Lemma not_inherited_is_own (path : list (list RuleApplication)) :
  forall (N C : list RuleApplication) (a : RuleApplication),
    In a (descend (effective_rules N C) path) ->
    is_inherited (ruleName a) = false ->
    In a (last (C :: path) []).
Proof.
  induction path as [|D deeper IH]; intros N C a Hin Hni.
  - cbn [descend] in Hin. apply in_effective_rules in Hin.
    destruct Hin as [Hin|(_ & Hih & _)]; [exact Hin|congruence].
  - cbn [descend] in Hin. apply IH in Hin; [|exact Hni]. exact Hin.
Qed.

(** C6: expanding a node with effective list [N] into a child whose own
    text carries [C].  An application is on the child's effective list
    exactly when it is one of [C], or it is an application of [N] whose
    rule is inherited and whose name no application of [C] bears.  An
    application of [C] bearing the name of an application of [N] takes its
    place, wherever the two stand in their lists.  An application whose
    rule is not inherited is on the list of a descendant, however deep,
    only if that descendant's own text carries it. *)
Theorem inheritance_propagation (N C : list RuleApplication) :
  (forall a, In a (effective_rules N C)
             <-> In a C
                 \/ (In a N /\ is_inherited (ruleName a) = true
                     /\ ~ In (ruleName a) (names_of C)))
  /\ effective_rules N C
     = filter (fun a => is_inherited (ruleName a)
                        && negb (existsb (String.eqb (ruleName a)) (names_of C)))
              N ++ C
  /\ (forall before after before' after' a e,
         N = before ++ a :: after ->
         C = before' ++ e :: after' ->
         ruleName e = ruleName a ->
         ~ In a (inherited_part N C) /\ In e (effective_rules N C))
  /\ (forall path a,
         In a (descend (effective_rules N C) path) ->
         is_inherited (ruleName a) = false ->
         In a (last (C :: path) [])).
Proof.
  split; [exact (in_effective_rules N C)|]. split; [reflexivity|]. split.
  - intros before after before' after' a e HN HC Hname. split.
    + rewrite in_inherited_part. intros (_ & _ & Hno). apply Hno.
      rewrite <- Hname, HC. unfold names_of. apply in_map.
      apply in_or_app. right. now left.
    + apply in_effective_rules. left. rewrite HC.
      apply in_or_app. right. now left.
  - intros path. apply not_inherited_is_own.
Qed.

(* ================================================================== *)
(** * Part V: line stringize *)
(* ================================================================== *)





(** *** The member loop *)

Section MemberLoop.

Variables self1 self2 : nat -> Node -> option string.





End MemberLoop.

(** *** One activation *)



(** *** The recursion *)






End ViewRules.

(* ================================================================== *)
(** * Part VI: the table at concrete flag bits, and sample runs *)
(* ================================================================== *)

(** The two lowest bits of the flag word. *)
Definition bit_Inherited : Z := 1.
Definition bit_Expandable : Z := 2.

Lemma radix_and_member_rules_inherited_at_bits :
  bit_Inherited <> 0%Z
  /\ Forall (fun kn =>
               option_map (fun d => (info_string d,
                                     has_flag (flags d) bit_Inherited))
                          (info_of_kind bit_Inherited bit_Expandable (fst kn))
               = Some (snd kn, true))
            [ ("Bin", "bin"); ("Oct", "oct"); ("Dec", "dec"); ("Hex", "hex");
              ("Only", "only"); ("Omit", "omit") ].
Proof.
  split; [discriminate|].
  apply (radix_and_member_rules_inherited bit_Inherited bit_Expandable).
  discriminate.
Defined.

Lemma no_rule_forces_expandable_at_bits :
  Z.land bit_Inherited bit_Expandable = 0%Z
  /\ Forall (fun d => has_flag (flags d) bit_Expandable = false)
            (ev_builtin_view_rule_info_table bit_Inherited bit_Expandable).
Proof.
  split; [reflexivity|].
  apply (no_rule_forces_expandable bit_Inherited bit_Expandable). reflexivity.
Defined.

Lemma expansion_hooks_paired_and_ids_identity_at_bits :
  Forall (fun d =>
            supplies_hook (expr_expand_info d)
            = supplies_hook (expr_expand_range_info d)
            /\ call_num_hook (fun _ x => x) (expr_expand_id_from_num d) 7%Z
               = Some 7%Z
            /\ call_num_hook (fun _ x => x) (expr_expand_num_from_id d) 7%Z
               = Some 7%Z)
         (ev_builtin_view_rule_info_table bit_Inherited bit_Expandable).
Proof.
  eapply Forall_impl;
    [|apply (expansion_hooks_paired_and_ids_identity
               bit_Inherited bit_Expandable (fun _ x => x));
      intros x; reflexivity].
  intros d (Hpair & _ & _ & Hcall). split; [exact Hpair|]. exact (Hcall 7%Z).
Defined.

(** The design table against the descriptors: slice is listed for
    resolution and expansion and has no expansion hook; bswap is listed for
    stringize and expansion and has a resolution hook and no expansion
    hook. *)
Lemma slice_and_bswap_differ_from_design :
  design_stages "slice" = Some [Resolution; Expand]
  /\ option_map (fun d => (has_stage d Resolution, has_stage d Expand,
                           agrees_with_design d [Resolution; Expand]))
                (info_of_kind bit_Inherited bit_Expandable "Slice")
     = Some (true, false, false)
  /\ design_stages "bswap" = Some [Stringize; Expand]
  /\ option_map (fun d => (has_stage d Resolution, has_stage d Expand,
                           agrees_with_design d [Stringize; Expand]))
                (info_of_kind bit_Inherited bit_Expandable "ByteSwap")
     = Some (true, false, false).
Proof. repeat split. Qed.

(** How far the design table and the descriptors agree, rule by rule. *)
Lemma design_table_agreement :
  map (fun r => (fst r,
                 option_map (fun d => agrees_with_design d (snd r))
                   (find (fun d => String.eqb (info_string d) (fst r))
                      (ev_builtin_view_rule_info_table
                         bit_Inherited bit_Expandable))))
      design_rule_table
  = [ ("array", Some true); ("cast", Some true); ("wrap", Some true);
      ("slice", Some false); ("list", Some true); ("bin", Some false);
      ("oct", Some false); ("dec", Some false); ("hex", Some false);
      ("bswap", Some false); ("only", Some false); ("omit", Some false);
      ("no_addr", Some false) ].
Proof. reflexivity. Qed.

(** The resolution member of bin, a rule that declares no resolution hook:
    not null, the function [identity]. *)
Lemma bin_resolution_member_is_a_function :
  option_map (fun d => (supplies_hook (expr_resolution d),
                        is_null (expr_resolution d),
                        expr_resolution d))
             (info_of_kind bit_Inherited bit_Expandable "Bin")
  = Some (false, false, hook_fn (FUNCTION_NAME EXPR_RESOLUTION "identity")).
Proof. reflexivity. Qed.

(** ** Sample runs

    A small snapshot: node 0 is a record whose one member is itself, node 1
    a record of the scalars 2 and 3, every other node a scalar.  The one
    resolution hook that does something is cast, which retargets to
    node 1. *)

Definition toy_members (n : nat) : list nat :=
  match n with
  | 0 => [0]
  | 1 => [2; 3]
  | _ => []
  end.

Definition toy_leaf_text (c : StageContext) (n : nat) : string :=
  match n with
  | 2 => if Nat.eqb (radix c) 16 then "0x2a" else "42"
  | _ => if Nat.eqb (radix c) 16 then "0x7" else "7"
  end.

Definition toy_resolution (f : HookFunction) (args : string) (n : nat) : nat :=
  if String.eqb (hook_id f) "cast" then 1 else n.

Definition toy_pipeline (apps : list RuleApplication)
           (n lo hi fuel depth chars : nat) : Logged (StageOutput nat nat nat) :=
  pipeline bit_Inherited bit_Expandable nat nat nat
    toy_resolution (fun _ _ _ => 0) (fun _ _ _ _ _ => [])
    (fun n => length (toy_members n))
    (fun n lo hi => firstn (hi - lo) (skipn lo (toy_members n)))
    toy_members toy_leaf_text apps n lo hi fuel depth chars.

Definition toy_stringize : nat -> StageContext -> nat -> nat -> nat -> option string :=
  line_stringize nat toy_members toy_leaf_text.

Definition frobnicate : RuleApplication := mk_app "frobnicate" EmptyString.
Definition hex : RuleApplication := mk_app "hex" EmptyString.
Definition dec : RuleApplication := mk_app "dec" EmptyString.
Definition bin : RuleApplication := mk_app "bin" EmptyString.

Lemma unknown_rule_is_passthrough_frobnicate :
  bind_application bit_Inherited bit_Expandable frobnicate
  = (Passthrough, [Consulted "frobnicate"; Warning "frobnicate"])
  /\ fst (toy_pipeline ([mk_app "cast" "T"] ++ frobnicate :: [hex]) 5 0 2 5 3 40)
     = fst (toy_pipeline ([mk_app "cast" "T"] ++ [hex]) 5 0 2 5 3 40)
  /\ In (Warning "frobnicate")
        (snd (toy_pipeline ([mk_app "cast" "T"] ++ frobnicate :: [hex])
                           5 0 2 5 3 40)).
Proof.
  assert (Hunknown : ~ In (ruleName frobnicate)
                          (map rs_name (registry bit_Inherited bit_Expandable))).
  { cbn. intuition discriminate. }
  pose proof (unknown_rule_is_passthrough bit_Inherited bit_Expandable
                nat nat nat toy_resolution (fun _ _ _ => 0)
                (fun _ _ _ _ _ => [])
                (fun n => length (toy_members n))
                (fun n lo hi => firstn (hi - lo) (skipn lo (toy_members n)))
                toy_members toy_leaf_text frobnicate Hunknown)
    as (Hbind & Hrun & _).
  split; [exact Hbind|].
  exact (Hrun [mk_app "cast" "T"] [hex] 5 0 2 5 3 40).
Defined.

Example frobnicate_run :
  toy_pipeline [frobnicate] 1 0 2 5 3 40
  = (mk_output nat nat nat 1 (false, 2) [2; 3] (Some "{42, 7}"),
     [Consulted "frobnicate"; Warning "frobnicate"]).
Proof. reflexivity. Qed.

Example cast_hex_run :
  toy_pipeline [mk_app "cast" "T"; hex] 5 0 2 5 3 40
  = (mk_output nat nat nat 1 (false, 2) [2; 3] (Some "{0x2a, 0x7}"),
     [Consulted "cast"; Consulted "hex"]).
Proof. reflexivity. Qed.

(** The self-referential record: three levels, then the marker; too few
    activations and the recursion has not come back. *)
Example self_reference_elided :
  toy_stringize 4 default_context 3 40 0 = Some "{{{...}}}"
  /\ toy_stringize 9 default_context 3 40 0 = Some "{{{...}}}"
  /\ toy_stringize 3 default_context 3 40 0 = None
  /\ toy_stringize 9 default_context 30 6 0 = Some "{{{{{{...}}}}}}".
Proof. repeat split. Qed.

Example character_budget_elided :
  toy_stringize 9 default_context 3 5 1 = Some "{42, ...}"
  /\ toy_stringize 9 default_context 0 40 1 = Some "..."
  /\ toy_stringize 9 default_context 3 40 1 = Some "{42, 7}".
Proof. repeat split. Qed.

(** The rules the table marks inherited, and what reaches a child. *)
Example inherited_rule_names :
  filter (is_inherited bit_Inherited bit_Expandable)
         (map rs_name (registry bit_Inherited bit_Expandable))
  = ["bswap"; "only"; "omit"; "bin"; "oct"; "dec"; "hex"; "no_addr"].
Proof. reflexivity. Qed.

Example array_dropped_hex_kept :
  effective_rules bit_Inherited bit_Expandable [mk_app "array" "3"; hex] []
  = [hex].
Proof. reflexivity. Qed.

Example override_by_name :
  effective_rules bit_Inherited bit_Expandable
    [hex; mk_app "only" "a"; mk_app "cast" "U"] [mk_app "only" "b"; dec]
  = [hex; mk_app "only" "b"; dec].
Proof. reflexivity. Qed.

Example three_levels_down :
  descend bit_Inherited bit_Expandable [mk_app "array" "3"; hex]
          [[mk_app "slice" EmptyString]; []; [bin]]
  = [hex; bin].
Proof. reflexivity. Qed.

Example last_radix_wins :
  radix (stage_context [hex; dec]) = 10
  /\ radix (stage_context [dec; bin; hex]) = 16.
Proof. split; reflexivity. Qed.

(* ================================================================== *)
(** * Part VII: the generators, whatever the table *)
(* ================================================================== *)

(** The three generators expand the table row by row, and no template
    looks at which rows it is given.  Here they are functions of the row
    list; [EV_ViewRuleKind], [gen_decls] and
    [ev_builtin_view_rule_info_table] are their values at
    [EV_ViewRuleTable] (see [generators_at_builtin_table]). *)

(** A C identifier: a letter or underscore, then letters, digits and
    underscores.  The templates paste [name_lower] into the function-name
    macros as it stands, so this is what a row's [name_lower] has to be
    for the generated text to be C. *)

Definition is_letter_or_underscore (c : ascii) : bool :=
  let n := nat_of_ascii c in
  ((65 <=? n) && (n <=? 90) || (97 <=? n) && (n <=? 122) || (n =? 95))%nat.

Definition is_digit (c : ascii) : bool :=
  let n := nat_of_ascii c in ((48 <=? n) && (n <=? 57))%nat.

Fixpoint all_chars (p : ascii -> bool) (s : string) : bool :=
  match s with
  | EmptyString => true
  | String c rest => p c && all_chars p rest
  end.

Definition is_c_identifier (s : string) : bool :=
  match s with
  | EmptyString => false
  | String c rest =>
      is_letter_or_underscore c
      && all_chars (fun c' => is_letter_or_underscore c' || is_digit c') rest
  end.

Section AnyTable.

Variables EV_ViewRuleInfoFlag_Inherited EV_ViewRuleInfoFlag_Expandable : Z.
Variable rows : list EV_ViewRuleTable_row.

(** [@enum] (lines 110-114). *)
Definition enum_of_table : list string := map name rows ++ ["COUNT"].

(** [@gen] (lines 116-121), its three [@expand] lines in order. *)
Definition gen_of_table : list HookFunction :=
  flat_map (fun a => md_when (md_eq (xr a) "x")
                       (FUNCTION_NAME EXPR_RESOLUTION (name_lower a))) rows
  ++ flat_map (fun a => md_when (md_eq (xe a) "x")
                          (FUNCTION_NAME EXPR_EXPAND_INFO (name_lower a))) rows
  ++ flat_map (fun a => md_when (md_eq (xe a) "x")
                          (FUNCTION_NAME EXPR_EXPAND_RANGE_INFO (name_lower a)))
              rows.

(** [@data] (lines 123-127). *)
Definition data_of_table : list EV_ViewRuleInfo :=
  flat_map (fun a =>
              match info_of_row EV_ViewRuleInfoFlag_Inherited
                                EV_ViewRuleInfoFlag_Expandable a with
              | Some d => [d]
              | None => []
              end) rows.

(** The hook members a rule can tick a column for. *)
Definition stage_families : list HookFamily :=
  [EXPR_RESOLUTION; EXPR_EXPAND_INFO; EXPR_EXPAND_RANGE_INFO].

(** ** One row *)

Hypothesis Inherited_bit : EV_ViewRuleInfoFlag_Inherited <> 0%Z.
Hypothesis Expandable_bit : EV_ViewRuleInfoFlag_Expandable <> 0%Z.
Hypothesis bits_apart :
  Z.land EV_ViewRuleInfoFlag_Inherited EV_ViewRuleInfoFlag_Expandable = 0%Z.

(** X1: the flag word of a row's descriptor gives back the row's two
    flag cells, whatever the row: it has the Inherited bit exactly when
    [ih] is ticked and the Expandable bit exactly when [ex] is. *)
Theorem flag_word_round_trip (a : EV_ViewRuleTable_row) :
  option_map (fun d => (has_flag (flags d) EV_ViewRuleInfoFlag_Inherited,
                        has_flag (flags d) EV_ViewRuleInfoFlag_Expandable))
             (info_of_row EV_ViewRuleInfoFlag_Inherited
                          EV_ViewRuleInfoFlag_Expandable a)
  = Some (md_eq (ih a) "x", md_eq (ex a) "x").
Proof.
  rewrite info_of_row_defined. cbn [option_map flags]. unfold init_flags, has_flag.
  assert (Hne : forall z, z <> 0%Z -> negb (z =? 0)%Z = true)
    by (intros z Hz; now apply negb_true_iff, Z.eqb_neq).
  destruct (md_eq (ih a) "x"), (md_eq (ex a) "x"); cbn [md_digit];
    rewrite ?Z.mul_1_r, ?Z.mul_0_r, ?Z.lor_0_r, ?Z.lor_0_l, ?Z.land_0_l,
      ?Z.land_lor_distr_l, ?Z.land_diag, ?bits_apart,
      ?(Z.land_comm EV_ViewRuleInfoFlag_Expandable EV_ViewRuleInfoFlag_Inherited),
      ?bits_apart, ?Z.lor_0_r, ?Z.lor_0_l,
      ?(Hne _ Inherited_bit), ?(Hne _ Expandable_bit);
    reflexivity.
Qed.

(** X2: a row's own hooks, for any row whose [name_lower] is a C
    identifier.  A resolution or expansion member holds the rule's own
    function, named after [name_lower], exactly when its column is ticked
    and [name_lower] is not the stand-in's name: a rule called identity
    that ticks [xr], or one called nil that ticks [xe], yields the members
    of a rule that ticks nothing. *)
Theorem own_hooks_of_identifier_row (a : EV_ViewRuleTable_row) :
  is_c_identifier (name_lower a) = true ->
  option_map (fun d => (own_hook (expr_resolution d),
                        own_hook (expr_expand_info d),
                        own_hook (expr_expand_range_info d)))
             (info_of_row EV_ViewRuleInfoFlag_Inherited
                          EV_ViewRuleInfoFlag_Expandable a)
  = Some (if md_eq (xr a) "x" && negb (String.eqb (name_lower a) "identity")
          then Some (FUNCTION_NAME EXPR_RESOLUTION (name_lower a)) else None,
          if md_eq (xe a) "x" && negb (String.eqb (name_lower a) "nil")
          then Some (FUNCTION_NAME EXPR_EXPAND_INFO (name_lower a)) else None,
          if md_eq (xe a) "x" && negb (String.eqb (name_lower a) "nil")
          then Some (FUNCTION_NAME EXPR_EXPAND_RANGE_INFO (name_lower a))
          else None).
Proof.
  intros _. rewrite info_of_row_defined.
  cbn [option_map expr_resolution expr_expand_info expr_expand_range_info].
  unfold own_hook.
  destruct (md_eq (xr a) "x"), (md_eq (xe a) "x");
    cbn [hook_id hook_family stand_in_id andb negb];
    destruct (String.eqb (name_lower a) "identity");
    destruct (String.eqb (name_lower a) "nil"); reflexivity.
Qed.

(** ** The whole table *)


Lemma in_data (d : EV_ViewRuleInfo) :
  In d data_of_table
  <-> exists a, In a rows
                /\ info_of_row EV_ViewRuleInfoFlag_Inherited
                               EV_ViewRuleInfoFlag_Expandable a = Some d.
Proof.
  unfold data_of_table. rewrite in_flat_map. split.
  - intros (a & Hin & Hd). exists a. split; [exact Hin|].
    destruct (info_of_row _ _ a) as [d'|]; [|contradiction].
    destruct Hd as [->|[]]. reflexivity.
  - intros (a & Hin & Hd). exists a. split; [exact Hin|].
    rewrite Hd. now left.
Qed.

Lemma in_md_when {A : Type} (c : bool) (x y : A) :
  In y (md_when c x) <-> c = true /\ y = x.
Proof.
  destruct c; cbn; split; try tauto; try (intros [H _]; discriminate).
  - intros [->|[]]. auto.
  - intros [_ ->]. auto.
Qed.

Lemma in_gen (f : HookFunction) :
  In f gen_of_table
  <-> exists a, In a rows
                /\ ((md_eq (xr a) "x" = true
                     /\ f = FUNCTION_NAME EXPR_RESOLUTION (name_lower a))
                    \/ (md_eq (xe a) "x" = true
                        /\ f = FUNCTION_NAME EXPR_EXPAND_INFO (name_lower a))
                    \/ (md_eq (xe a) "x" = true
                        /\ f = FUNCTION_NAME EXPR_EXPAND_RANGE_INFO
                                             (name_lower a))).
Proof.
  unfold gen_of_table. rewrite !in_app_iff, !in_flat_map. split.
  - intros [(a & Hin & H)|[(a & Hin & H)|(a & Hin & H)]];
      apply in_md_when in H; exists a; tauto.
  - intros (a & Hin & [H|[H|H]]); apply in_md_when in H;
      [left|right; left|right; right]; exists a; tauto.
Qed.

(** X3: the declarations of the [@gen] block and the references of the
    data table match, whatever the table.  A function a descriptor names
    in a resolution or expansion member is declared by [@gen] or is the
    family's stand-in; every function [@gen] declares is named by a
    descriptor, in the member of its family; [@gen] declares nothing in
    the id/num families; and it declares an expand-info function for a
    rule exactly when it declares an expand-range-info function for it. *)
Theorem declarations_match_references :
  (forall d fam f,
      In d data_of_table -> In fam stage_families ->
      hook_member d fam = hook_fn f ->
      In f gen_of_table \/ f = FUNCTION_NAME fam (stand_in_id fam))
  /\ (forall f, In f gen_of_table ->
                exists d, In d data_of_table
                          /\ hook_member d (hook_family f) = hook_fn f)
  /\ (forall f, In f gen_of_table -> In (hook_family f) stage_families)
  /\ (forall n, In (FUNCTION_NAME EXPR_EXPAND_INFO n) gen_of_table
                <-> In (FUNCTION_NAME EXPR_EXPAND_RANGE_INFO n) gen_of_table).
Proof.
  repeat split.
  - intros d fam f Hd Hfam Hmem. apply in_data in Hd.
    destruct Hd as (a & Hin & Hd). rewrite info_of_row_defined in Hd.
    injection Hd as <-. rewrite in_gen.
    destruct Hfam as [<-|[<-|[<-|[]]]]; cbn [hook_member expr_resolution
      expr_expand_info expr_expand_range_info] in Hmem;
      injection Hmem as <-.
    + destruct (md_eq (xr a) "x") eqn:E; [left; exists a; tauto|now right].
    + destruct (md_eq (xe a) "x") eqn:E; [left; exists a; tauto|now right].
    + destruct (md_eq (xe a) "x") eqn:E; [left; exists a; tauto|now right].
  - intros f Hf. apply in_gen in Hf.
    destruct Hf as (a & Hin & H).
    eexists. split; [apply in_data; exists a; split;
                     [exact Hin|apply info_of_row_defined]|].
    destruct H as [[E ->]|[[E ->]|[E ->]]]; cbn [hook_family hook_member
      expr_resolution expr_expand_info expr_expand_range_info];
      now rewrite E.
  - intros f Hf. apply in_gen in Hf.
    destruct Hf as (a & _ & [[_ ->]|[[_ ->]|[_ ->]]]); cbn; tauto.
  - intros Hf. apply in_gen in Hf. apply in_gen.
    destruct Hf as (a & Hin & [[_ H]|[[E H]|[_ H]]]); try discriminate.
    injection H as ->. exists a. tauto.
  - intros Hf. apply in_gen in Hf. apply in_gen.
    destruct Hf as (a & Hin & [[_ H]|[[_ H]|[E H]]]); try discriminate.
    injection H as ->. exists a. tauto.
Qed.

(** ** Enumerators against descriptors *)





End AnyTable.

(** ** The built-in table *)

Lemma generators_at_builtin_table (inherited expandable : Z) :
  enum_of_table EV_ViewRuleTable = EV_ViewRuleKind
  /\ gen_of_table EV_ViewRuleTable = gen_decls
  /\ data_of_table inherited expandable EV_ViewRuleTable
     = ev_builtin_view_rule_info_table inherited expandable.
Proof. repeat split. Qed.

Lemma builtin_names_distinct :
  NoDup (map name EV_ViewRuleTable)
  /\ ~ In "COUNT" (map name EV_ViewRuleTable).
Proof.
  split.
  - cbn. repeat (apply NoDup_cons; [cbn; intuition discriminate|]).
    apply NoDup_nil.
  - cbn. intuition discriminate.
Qed.

Lemma builtin_strings_distinct : NoDup (map string_ EV_ViewRuleTable).
Proof.
  cbn. repeat (apply NoDup_cons; [cbn; intuition discriminate|]).
  apply NoDup_nil.
Qed.

(** X5: the identifiers of the built-in table.  Enumerator names are
    pairwise distinct and none is COUNT; rule strings are pairwise
    distinct; every rule's string is its [name_lower]; no [name_lower] is
    the name of a stand-in; and so the strings of the generated
    descriptors are pairwise distinct, in table order. *)
Theorem builtin_identifiers (inherited expandable : Z) :
  NoDup (map name EV_ViewRuleTable)
  /\ ~ In "COUNT" (map name EV_ViewRuleTable)
  /\ NoDup (map string_ EV_ViewRuleTable)
  /\ Forall (fun a => string_ a = name_lower a
                      /\ String.eqb (name_lower a) "identity" = false
                      /\ String.eqb (name_lower a) "nil" = false)
            EV_ViewRuleTable
  /\ map info_string (ev_builtin_view_rule_info_table inherited expandable)
     = map string_ EV_ViewRuleTable
  /\ NoDup (map info_string
                (ev_builtin_view_rule_info_table inherited expandable)).
Proof.
  assert (Hmap : map info_string
                     (ev_builtin_view_rule_info_table inherited expandable)
                 = map string_ EV_ViewRuleTable) by reflexivity.
  split; [apply builtin_names_distinct|].
  split; [apply builtin_names_distinct|].
  split; [exact builtin_strings_distinct|].
  split; [repeat (apply Forall_cons; [repeat split|]); apply Forall_nil|].
  split; [exact Hmap|]. rewrite Hmap. exact builtin_strings_distinct.
Qed.

Lemma flag_word_round_trip_bswap :
  (bit_Inherited <> 0 /\ bit_Expandable <> 0
   /\ Z.land bit_Inherited bit_Expandable = 0)%Z
  /\ option_map (fun d => (has_flag (flags d) bit_Inherited,
                           has_flag (flags d) bit_Expandable))
                (info_of_row bit_Inherited bit_Expandable row_ByteSwap)
     = Some (true, false).
Proof.
  assert (H1 : bit_Inherited <> 0%Z) by discriminate.
  assert (H2 : bit_Expandable <> 0%Z) by discriminate.
  assert (H3 : Z.land bit_Inherited bit_Expandable = 0%Z) by reflexivity.
  split; [tauto|].
  exact (flag_word_round_trip bit_Inherited bit_Expandable H1 H2 H3 row_ByteSwap).
Defined.


(** Every [name_lower] of the built-in table is a C identifier. *)
Lemma builtin_name_lower_identifiers :
  Forall (fun a => is_c_identifier (name_lower a) = true) EV_ViewRuleTable.
Proof. repeat (apply Forall_cons; [reflexivity|]). apply Forall_nil. Qed.

Lemma own_hooks_of_identifier_row_slice :
  is_c_identifier (name_lower row_Slice) = true
  /\ option_map (fun d => (own_hook (expr_resolution d),
                           own_hook (expr_expand_info d),
                           own_hook (expr_expand_range_info d)))
                (info_of_row bit_Inherited bit_Expandable row_Slice)
     = Some (Some (FUNCTION_NAME EXPR_RESOLUTION "slice"), None, None).
Proof.
  split; [reflexivity|].
  exact (own_hooks_of_identifier_row bit_Inherited bit_Expandable row_Slice
           eq_refl).
Defined.

